(** * ci/config_checker.py: the config checker of the mirror service

    The script loads a service config (YAML), its JSON schema, any number
    of mirror configs (YAML) and an optional mirror schema while [argparse]
    reads the command line, validates with [jsonschema], logs through
    [logging] and leaves through [exit].

    The model is a shallow embedding.  The third-party libraries ([yaml],
    [json], [jsonschema]) are an interface ([Libraries]); the file system
    and the wall clock are inputs of a run; Python exceptions, the log and
    the calls made to the validator are threaded by a small monad. *)

From Stdlib Require Import String Ascii List ZArith Bool Arith Lia.
From Stdlib Require Import Permutation.
Import ListNotations.
Local Open Scope string_scope.

(** ** Strings *)

(** The double quote character, as it occurs inside the script's messages. *)
Definition dq : string := String (ascii_of_nat 34) EmptyString.

(** [is_substring part s]: [part] occurs in [s] (Python's [part in s]). *)
Fixpoint is_substring (part s : string) : bool :=
  prefix part s ||
  match s with
  | EmptyString => false
  | String _ rest => is_substring part rest
  end.

(** ** Python values and exceptions *)

(** What [jsonschema.validate(instance, schema)] does: it returns, or it
    raises [ValidationError] (the instance does not conform), or it raises
    [SchemaError] (the schema itself is not a valid schema).  The strings
    are [str(err)]. *)
Inductive validate_result : Type :=
| Passed
| RaisesValidationError (str_err : string)
| RaisesSchemaError (str_err : string).

(** What a loader ([yaml.safe_load], [json.load]) does on a text: a value,
    or the library's syntax error ([yaml.YAMLError],
    [json.JSONDecodeError]) with its [str(err)]. *)
Inductive loaded (A : Type) : Type :=
| Value (v : A)
| SyntaxError (str_err : string).
Arguments Value {A} v.
Arguments SyntaxError {A} str_err.

(** The third-party libraries the script calls. *)
Class Libraries : Type := {
  pyobject : Type;
  yaml_safe_load : string -> loaded pyobject;
  json_load : string -> loaded pyobject;
  jsonschema_validate : pyobject -> pyobject -> validate_result
}.

(** An open text file: what [argparse.FileType('r')] returns. *)
Record file_stream : Type := { name : string; content : string }.

(** [argparse.FileType('r').__call__(string)]: the open file, or
    [ArgumentTypeError] when the file cannot be opened. *)
Inductive opened : Type :=
| Stream (f : file_stream)
| CannotOpen (message : string).

Definition FileSystem : Type := string -> opened.

(** The exceptions that travel through [main]. *)
Inductive exn : Type :=
| SystemExit (code : Z)
| ValidationError (str_err : string)
| SchemaError (str_err : string).

(** ** Logging *)

Inductive level : Type := INFO | ERROR.

Definition levelname (l : level) : string :=
  match l with INFO => "INFO" | ERROR => "ERROR" end.

(** A call of [logger.error] or [logger.info]: level and message. *)
Record LogRecord : Type := { levelno : level; message : string }.

(** The wall clock: [clock k] is the [asctime] of the [k]-th record a run
    emits. *)
Definition Clock : Type := nat -> string.

(** [logger = logging.getLogger(__name__)]; the script runs as [__main__]. *)
Definition logger_name : string := "__main__".

(** [format='%(asctime)s | %(name)s | %(levelname)s | %(message)s'] *)
Definition format (asctime : string) (r : LogRecord) : string :=
  asctime ++ " | " ++ logger_name ++ " | " ++ levelname (levelno r)
          ++ " | " ++ message r.

(** The lines the handler writes for the records of a run, the first of
    them being the [k]-th record. *)
Fixpoint emit (clock : Clock) (k : nat) (rs : list LogRecord) : list string :=
  match rs with
  | [] => []
  | r :: rest => format (clock k) r :: emit clock (S k) rest
  end.

(** ** The monad of [main] *)

Section Program.
Context {L : Libraries}.

(** One call of [jsonschema.validate], with what it did. *)
Record validate_call : Type := {
  call_instance : pyobject;
  call_schema : pyobject;
  call_result : validate_result
}.

(** What a run has done so far: the records logged and the validations
    performed, oldest first. *)
Record world : Type := {
  records : list LogRecord;
  validations : list validate_call
}.

Definition nothing_done : world := {| records := []; validations := [] |}.

Inductive result (A : Type) : Type :=
| Returns (a : A)
| Raises (e : exn).
#[global] Arguments Returns {A} a.
#[global] Arguments Raises {A} e.

Definition M (A : Type) : Type := world -> result A * world.

Definition ret {A} (a : A) : M A := fun w => (Returns a, w).

Definition bind {A B} (m : M A) (k : A -> M B) : M B :=
  fun w =>
    match m w with
    | (Returns a, w') => k a w'
    | (Raises e, w') => (Raises e, w')
    end.

Definition raise {A} (e : exn) : M A := fun w => (Raises e, w).

(** [try: body  except <handled> as err: handler]: [handles e] is the
    handler's result when the [except] clause matches [e]. *)
Definition try_except {A} (body : M A) (handles : exn -> option (M A)) : M A :=
  fun w =>
    match body w with
    | (Returns a, w') => (Returns a, w')
    | (Raises e, w') =>
        match handles e with
        | Some handler => handler w'
        | None => (Raises e, w')
        end
    end.

End Program.

Declare Scope py_scope.
Delimit Scope py_scope with py.
Notation "x <- m ;; k" := (bind m (fun x => k))
  (at level 61, m at next level, right associativity) : py_scope.
Notation "m ;; k" := (bind m (fun _ => k))
  (at level 61, right associativity) : py_scope.
Local Open Scope py_scope.

Section Script.
Context {L : Libraries}.

(** The call [jsonschema.validate(instance, schema)] with its outcome. *)
Definition called (instance schema : pyobject) : validate_call :=
  {| call_instance := instance; call_schema := schema;
     call_result := jsonschema_validate instance schema |}.

Definition after_call (w : world) (c : validate_call) : world :=
  {| records := records w; validations := validations w ++ [c] |}.

Definition after_log (w : world) (r : LogRecord) : world :=
  {| records := records w ++ [r]; validations := validations w |}.

(** [jsonschema.validate(instance=..., schema=...)] as a statement. *)
Definition jsonschema_validate_call (instance schema : pyobject) : M unit :=
  fun w =>
    let w' := after_call w (called instance schema) in
    match jsonschema_validate instance schema with
    | Passed => (Returns tt, w')
    | RaisesValidationError s => (Raises (ValidationError s), w')
    | RaisesSchemaError s => (Raises (SchemaError s), w')
    end.

Definition log (l : level) (msg : string) : M unit :=
  fun w => (Returns tt, after_log w {| levelno := l; message := msg |}).

Definition logger_error : string -> M unit := log ERROR.
Definition logger_info : string -> M unit := log INFO.

(** The builtin [exit(code)]. *)
Definition exit {A} (code : Z) : M A := raise (SystemExit code).

(** ** The loaders (lines 18-44) *)

(** The dict [{'config_path': ..., 'config_data': ...}]. *)
Record ConfigFile : Type := { config_path : string; config_data : pyobject }.

(** A type function of [argparse] returns a value or raises
    [argparse.ArgumentTypeError(message)]. *)
Inductive converted (A : Type) : Type :=
| Converted (a : A)
| ArgumentTypeError (message : string).
#[global] Arguments Converted {A} a.
#[global] Arguments ArgumentTypeError {A} message.

Definition YamlFileType_call (fs : FileSystem) (path : string)
  : converted ConfigFile :=
  match fs path with
  | CannotOpen msg => ArgumentTypeError msg
  | Stream file_stream =>
      match yaml_safe_load (content file_stream) with
      | Value data =>
          Converted {| config_path := name file_stream; config_data := data |}
      | SyntaxError err =>
          ArgumentTypeError
            ("The YAML file by path " ++ dq ++ name file_stream ++ dq ++ " "
             ++ "is invalid because " ++ dq ++ err ++ dq)
      end
  end.

Definition JsonFileType_call (fs : FileSystem) (path : string)
  : converted pyobject :=
  match fs path with
  | CannotOpen msg => ArgumentTypeError msg
  | Stream file_stream =>
      match json_load (content file_stream) with
      | Value data => Converted data
      | SyntaxError err =>
          ArgumentTypeError
            ("The JSON file by path " ++ dq ++ name file_stream ++ dq ++ " "
             ++ "is invalid because " ++ dq ++ err ++ dq)
      end
  end.

(** ** The command line (lines 47-86) *)

(** [arguments], as [parse_args] returns it. *)
Record Namespace : Type := {
  service_config : ConfigFile;
  service_config_json_schema : pyobject;
  mirror_configs : list ConfigFile;
  mirror_config_json_schema : option pyobject
}.

(** One option of the command line with its values.  [-mc] has
    [nargs='+']: one path or more.  Positional and unknown arguments,
    which [argparse] refuses before the script runs, are left out. *)
Inductive cli_option : Type :=
| Opt_sc (path : string)
| Opt_ss (path : string)
| Opt_mc (path : string) (more : list string)
| Opt_ms (path : string).

(** The namespace while the command line is read: [-sc] and [-ss] are
    [required=True] and have to be seen; [-mc] defaults to [[]] and [-ms]
    to [None]; an option given twice keeps its last value. *)
Record parsing : Type := {
  seen_sc : option ConfigFile;
  seen_ss : option pyobject;
  dest_mc : list ConfigFile;
  dest_ms : option pyobject
}.

Definition defaults : parsing :=
  {| seen_sc := None; seen_ss := None; dest_mc := []; dest_ms := None |}.

(** [parse_args] returns the namespace or calls [parser.error(message)],
    which prints the usage and the message and exits with status 2. *)
Inductive parsed : Type :=
| Parsed (arguments : Namespace)
| ParserError (message : string).

(** [str(ArgumentError(action, message))] *)
Definition argument_error (option_strings message : string) : string :=
  "argument " ++ option_strings ++ ": " ++ message.

(** The [type] function applied to each value of a [nargs='+'] option, in
    order; the first [ArgumentTypeError] ends the conversion. *)
Fixpoint convert_each (fs : FileSystem) (paths : list string)
  : converted (list ConfigFile) :=
  match paths with
  | [] => Converted []
  | p :: rest =>
      match YamlFileType_call fs p with
      | ArgumentTypeError msg => ArgumentTypeError msg
      | Converted c =>
          match convert_each fs rest with
          | ArgumentTypeError msg => ArgumentTypeError msg
          | Converted cs => Converted (c :: cs)
          end
      end
  end.

(** One option consumed: its values are converted by its [type] and stored
    under its [dest]. *)
Definition take_action (fs : FileSystem) (o : cli_option) (ns : parsing)
  : converted parsing :=
  match o with
  | Opt_sc path =>
      match YamlFileType_call fs path with
      | ArgumentTypeError msg =>
          ArgumentTypeError (argument_error "-sc/--service-config" msg)
      | Converted c =>
          Converted {| seen_sc := Some c; seen_ss := seen_ss ns;
                       dest_mc := dest_mc ns; dest_ms := dest_ms ns |}
      end
  | Opt_ss path =>
      match JsonFileType_call fs path with
      | ArgumentTypeError msg =>
          ArgumentTypeError (argument_error "-ss/--service-config-json-schema" msg)
      | Converted j =>
          Converted {| seen_sc := seen_sc ns; seen_ss := Some j;
                       dest_mc := dest_mc ns; dest_ms := dest_ms ns |}
      end
  | Opt_mc path more =>
      match convert_each fs (path :: more) with
      | ArgumentTypeError msg =>
          ArgumentTypeError (argument_error "-mc/--mirror-configs" msg)
      | Converted cs =>
          Converted {| seen_sc := seen_sc ns; seen_ss := seen_ss ns;
                       dest_mc := cs; dest_ms := dest_ms ns |}
      end
  | Opt_ms path =>
      match JsonFileType_call fs path with
      | ArgumentTypeError msg =>
          ArgumentTypeError (argument_error "-ms/--mirror-config-json-schema" msg)
      | Converted j =>
          Converted {| seen_sc := seen_sc ns; seen_ss := seen_ss ns;
                       dest_mc := dest_mc ns; dest_ms := Some j |}
      end
  end.

(** The check of the required options, once the command line is read. *)
Definition required_seen (ns : parsing) : parsed :=
  match seen_sc ns, seen_ss ns with
  | Some sc, Some ss =>
      Parsed {| service_config := sc; service_config_json_schema := ss;
                mirror_configs := dest_mc ns;
                mirror_config_json_schema := dest_ms ns |}
  | None, Some _ =>
      ParserError "the following arguments are required: -sc/--service-config"
  | Some _, None =>
      ParserError
        "the following arguments are required: -ss/--service-config-json-schema"
  | None, None =>
      ParserError
        ("the following arguments are required: -sc/--service-config, "
         ++ "-ss/--service-config-json-schema")
  end.

(** The options are consumed from left to right; the first error ends the
    run. *)
Fixpoint consume (fs : FileSystem) (argv : list cli_option) (ns : parsing)
  : parsed :=
  match argv with
  | [] => required_seen ns
  | o :: rest =>
      match take_action fs o ns with
      | ArgumentTypeError msg => ParserError msg
      | Converted ns' => consume fs rest ns'
      end
  end.

(** [create_parser().parse_args()] *)
Definition parse_args (fs : FileSystem) (argv : list cli_option) : parsed :=
  consume fs argv defaults.

(** ** The validator (lines 89-100) *)

Definition config_validation (config_data json_schema : pyobject)
  : M (bool * option string) :=
  try_except
    (jsonschema_validate_call config_data json_schema ;;
     ret (true, None))
    (fun e =>
       match e with
       | ValidationError err => Some (ret (false, Some err))
       | _ => None
       end).

(** ** The runner (lines 103-130) *)

(** ['%s' % err] for the [Optional[str]] that [config_validation] returns. *)
Definition percent_s (err : option string) : string :=
  match err with
  | Some s => s
  | None => "None"
  end.

(** ['Main config "%s" is invalid because "%s"'] *)
Definition main_config_invalid (path err : string) : string :=
  "Main config " ++ dq ++ path ++ dq ++ " is invalid because "
  ++ dq ++ err ++ dq.

(** ['The mirror config "%s" is invalid because "%s"'] *)
Definition mirror_config_invalid (path err : string) : string :=
  "The mirror config " ++ dq ++ path ++ dq ++ " is invalid because "
  ++ dq ++ err ++ dq.

(** The [for mirror_config in arguments.mirror_configs] loop over the
    configs still to visit, with the current [exit_code]. *)
Fixpoint for_mirror_config (arguments : Namespace) (todo : list ConfigFile)
    (exit_code : Z) : M Z :=
  match todo with
  | [] => ret exit_code
  | mirror_config :: rest =>
      r <- config_validation
             (config_data (service_config arguments))
             (service_config_json_schema arguments) ;;
      exit_code' <-
        (if negb (fst r) then
           logger_error
             (mirror_config_invalid (config_path mirror_config)
                                    (percent_s (snd r))) ;;
           ret 1%Z
         else ret exit_code) ;;
      for_mirror_config arguments rest exit_code'
  end.

Definition main (arguments : Namespace) : M unit :=
  r <- config_validation
         (config_data (service_config arguments))
         (service_config_json_schema arguments) ;;
  (if negb (fst r) then
     logger_error
       (main_config_invalid (config_path (service_config arguments))
                            (percent_s (snd r))) ;;
     exit 1%Z
   else ret tt) ;;
  exit_code <- for_mirror_config arguments (mirror_configs arguments) 0%Z ;;
  (if (exit_code =? 0)%Z then logger_info "All configs are valid"
   else ret tt) ;;
  exit exit_code.

(** ** The process (lines 133-135) *)

(** How the interpreter ends: [SystemExit(code)] gives [code]; any other
    uncaught exception prints a traceback and gives 1. *)
Definition status_of {A} (r : result A) : Z :=
  match r with
  | Returns _ => 0%Z
  | Raises (SystemExit code) => code
  | Raises _ => 1%Z
  end.

Definition uncaught_of {A} (r : result A) : option exn :=
  match r with
  | Returns _ => None
  | Raises (SystemExit _) => None
  | Raises e => Some e
  end.

(** What a run of the script leaves behind. *)
Record Process : Type := {
  exit_status : Z;
  usage_error : option string;
  traceback : option exn;
  logged : list LogRecord;
  log_lines : list string;
  performed : list validate_call
}.

(** [main(arguments)] in a fresh interpreter. *)
Definition execute (clock : Clock) (arguments : Namespace) : Process :=
  let (r, w) := main arguments nothing_done in
  {| exit_status := status_of r; usage_error := None;
     traceback := uncaught_of r;
     logged := records w; log_lines := emit clock 0 (records w);
     performed := validations w |}.

(** [arguments = create_parser().parse_args(); main(arguments)] *)
Definition run_script (fs : FileSystem) (clock : Clock)
    (argv : list cli_option) : Process :=
  match parse_args fs argv with
  | ParserError msg =>
      {| exit_status := 2%Z; usage_error := Some msg; traceback := None;
         logged := []; log_lines := []; performed := [] |}
  | Parsed arguments => execute clock arguments
  end.

(** ** Vocabulary of the properties *)

(** A validation succeeded: [jsonschema.validate] returned. *)
Definition succeeded (c : validate_call) : Prop := call_result c = Passed.

(** A validation failed: [jsonschema.validate] raised [ValidationError]. *)
Definition failed (c : validate_call) : Prop :=
  exists err, call_result c = RaisesValidationError err.

(** The document conforms to the schema. *)
Definition conforms (document schema : pyobject) : Prop :=
  jsonschema_validate document schema = Passed.

(** The message names the file and quotes the parser's error. *)
Definition tells (msg : string) (st : file_stream) (err : string) : Prop :=
  is_substring (name st) msg = true /\ is_substring err msg = true.

(** Two namespaces, parsed or still being parsed, that differ in the
    mirror schema at most. *)
Definition same_but_mirror_schema (a1 a2 : Namespace) : Prop :=
  service_config a1 = service_config a2 /\
  service_config_json_schema a1 = service_config_json_schema a2 /\
  mirror_configs a1 = mirror_configs a2.

Definition parsing_same_but_mirror_schema (n1 n2 : parsing) : Prop :=
  seen_sc n1 = seen_sc n2 /\ seen_ss n1 = seen_ss n2 /\ dest_mc n1 = dest_mc n2.

(** The success line of the script. *)
Definition success_record : LogRecord :=
  {| levelno := INFO; message := "All configs are valid" |}.

Definition is_info (r : LogRecord) : bool :=
  match levelno r with INFO => true | ERROR => false end.

Definition is_error (r : LogRecord) : bool :=
  match levelno r with ERROR => true | INFO => false end.

(** The number of informational lines and of error lines in a log. *)
Definition info_lines (rs : list LogRecord) : nat := length (filter is_info rs).
Definition error_lines (rs : list LogRecord) : nat := length (filter is_error rs).


(** The error records of the two branches of [main]. *)
Definition main_error (arguments : Namespace) (err : string) : LogRecord :=
  {| levelno := ERROR;
     message := main_config_invalid (config_path (service_config arguments)) err |}.

Definition mirror_error (err : string) (mirror_config : ConfigFile) : LogRecord :=
  {| levelno := ERROR;
     message := mirror_config_invalid (config_path mirror_config) err |}.

(** The one validation [main] asks for, over and over. *)
Definition service_call (arguments : Namespace) : validate_call :=
  called (config_data (service_config arguments))
         (service_config_json_schema arguments).

(** The input files of a command line, in the order they are loaded, each
    with the loader of its option. *)
Inductive file_format : Type := YAML | JSON.

Definition input_files_of (o : cli_option) : list (file_format * string) :=
  match o with
  | Opt_sc p => [(YAML, p)]
  | Opt_ss p => [(JSON, p)]
  | Opt_mc p more => map (pair YAML) (p :: more)
  | Opt_ms p => [(JSON, p)]
  end.

Definition input_files (argv : list cli_option) : list (file_format * string) :=
  flat_map input_files_of argv.

(** The file opens and its text is well formed for its loader. *)
Definition loads (fs : FileSystem) (f : file_format * string) : Prop :=
  match fs (snd f) with
  | CannotOpen _ => False
  | Stream st =>
      match fst f with
      | YAML => exists v, yaml_safe_load (content st) = Value v
      | JSON => exists v, json_load (content st) = Value v
      end
  end.

(** The file opens as [st] and its text is malformed, [err] being the
    parser's error. *)
Definition malformed (fs : FileSystem) (f : file_format * string)
    (st : file_stream) (err : string) : Prop :=
  fs (snd f) = Stream st /\
  match fst f with
  | YAML => yaml_safe_load (content st) = SyntaxError err
  | JSON => json_load (content st) = SyntaxError err
  end.

(** The [dest] under which an option is stored (lines 57, 65, 73, 82). *)
Definition dest (o : cli_option) : string :=
  match o with
  | Opt_sc _ => "service_config"
  | Opt_ss _ => "service_config_json_schema"
  | Opt_mc _ _ => "mirror_configs"
  | Opt_ms _ => "mirror_config_json_schema"
  end.

(** The option stored under [d] occurs on the command line. *)
Definition given (d : string) (argv : list cli_option) : Prop :=
  In d (map dest argv).

(** No option of the command line is stored under [d]. *)
Definition absent (d : string) (argv : list cli_option) : Prop :=
  Forall (fun o => dest o <> d) argv.

(** [c] is what [YamlFileType] makes of the file at [path]: the name of
    the open file and the document [yaml.safe_load] reads from it. *)
Definition yaml_of (fs : FileSystem) (path : string) (c : ConfigFile) : Prop :=
  exists st, fs path = Stream st /\ config_path c = name st /\
             yaml_safe_load (content st) = Value (config_data c).

(** [j] is what [JsonFileType] makes of the file at [path]. *)
Definition json_of (fs : FileSystem) (path : string) (j : pyobject) : Prop :=
  exists st, fs path = Stream st /\ json_load (content st) = Value j.

End Script.

(** ** A fixture: small libraries and files to run the script on *)

Module Fixture.

#[local] Set Warnings "-register-all".

(** Parsed YAML and JSON documents. *)
Inductive json : Type :=
| JNull
| JBool (b : bool)
| JNumber (n : Z)
| JString (s : string)
| JArray (items : list json)
| JObject (members : list (string * json)).

Fixpoint member (key : string) (members : list (string * json)) : option json :=
  match members with
  | [] => None
  | (k, v) :: rest => if String.eqb k key then Some v else member key rest
  end.

Fixpoint strings_of (items : list json) : option (list string) :=
  match items with
  | [] => Some []
  | JString s :: rest =>
      match strings_of rest with
      | Some l => Some (s :: l)
      | None => None
      end
  | _ :: _ => None
  end.

Fixpoint first_missing (names : list string) (members : list (string * json))
  : option string :=
  match names with
  | [] => None
  | n :: rest =>
      match member n members with
      | Some _ => first_missing rest members
      | None => Some n
      end
  end.

(** A validator for the [required] keyword alone.  A schema is an object
    or a boolean, and [required] holds an array of strings: anything else
    is refused as a schema, as [jsonschema] refuses it. *)
Definition validate (instance schema : json) : validate_result :=
  match schema with
  | JObject keywords =>
      match member "required" keywords with
      | None => Passed
      | Some (JArray items) =>
          match strings_of items with
          | None => RaisesSchemaError "an item of 'required' is not of type 'string'"
          | Some names =>
              match instance with
              | JObject members =>
                  match first_missing names members with
                  | Some n => RaisesValidationError ("'" ++ n ++ "' is a required property")
                  | None => Passed
                  end
              | _ => Passed
              end
          end
      | Some _ => RaisesSchemaError "the value of 'required' is not of type 'array'"
      end
  | JBool true => Passed
  | JBool false => RaisesValidationError "False schema does not allow the instance"
  | _ => RaisesSchemaError "the schema is not of type 'object', 'boolean'"
  end.

(** The texts of the fixture's files. *)
Definition service_text : string := "name: almalinux".
Definition nameless_text : string := "address: mirror.example.org".
Definition mirror_text : string := "name: mirror.example.org".
Definition broken_yaml_text : string := "name: [".
Definition other_broken_yaml_text : string := "mirrors: {".
Definition schema_text : string :=
  "{" ++ dq ++ "required" ++ dq ++ ": [" ++ dq ++ "name" ++ dq ++ "]}".
Definition not_a_schema_text : string :=
  "{" ++ dq ++ "required" ++ dq ++ ": 5}".
Definition broken_json_text : string := "{".

(** The loaders know the texts of the fixture and take every other text
    for malformed. *)
Definition safe_load (text : string) : loaded json :=
  if String.eqb text service_text then
    Value (JObject [("name", JString "almalinux")])
  else if String.eqb text nameless_text then
    Value (JObject [("address", JString "mirror.example.org")])
  else if String.eqb text mirror_text then
    Value (JObject [("name", JString "mirror.example.org")])
  else if String.eqb text broken_yaml_text then
    SyntaxError "while parsing a flow node: expected the node content"
  else if String.eqb text other_broken_yaml_text then
    SyntaxError "while parsing a flow mapping: expected ',' or '}'"
  else SyntaxError "could not determine a constructor".

Definition load (text : string) : loaded json :=
  if String.eqb text schema_text then
    Value (JObject [("required", JArray [JString "name"])])
  else if String.eqb text not_a_schema_text then
    Value (JObject [("required", JNumber 5)])
  else if String.eqb text broken_json_text then
    SyntaxError "Expecting property name enclosed in double quotes: line 1 column 2 (char 1)"
  else SyntaxError "Expecting value: line 1 column 1 (char 0)".

Definition libraries : Libraries :=
  {| pyobject := json;
     yaml_safe_load := safe_load;
     json_load := load;
     jsonschema_validate := validate |}.

(** The files on disk. *)
Definition file (path text : string) : opened :=
  Stream {| name := path; content := text |}.

Definition disk : FileSystem := fun path =>
  if String.eqb path "config.yml" then file path service_text
  else if String.eqb path "nameless.yml" then file path nameless_text
  else if String.eqb path "mirror_a.yml" then file path mirror_text
  else if String.eqb path "mirror_b.yml" then file path nameless_text
  else if String.eqb path "broken.yml" then file path broken_yaml_text
  else if String.eqb path "broken_too.yml" then file path other_broken_yaml_text
  else if String.eqb path "schema.json" then file path schema_text
  else if String.eqb path "not_a_schema.json" then file path not_a_schema_text
  else if String.eqb path "broken.json" then file path broken_json_text
  else CannotOpen ("can't open '" ++ path ++ "': [Errno 2] No such file or directory: '"
                   ++ path ++ "'").

(** Two runs at different times. *)
Definition monday : Clock := fun _ => "2024-01-01 10:00:00,000".

(** The parsed values of the fixture's files. *)
Definition service_doc : json := JObject [("name", JString "almalinux")].
Definition nameless_doc : json := JObject [("address", JString "mirror.example.org")].
Definition mirror_doc : json := JObject [("name", JString "mirror.example.org")].
Definition schema_doc : json := JObject [("required", JArray [JString "name"])].
Definition not_a_schema_doc : json := JObject [("required", JNumber 5)].

(** What the loaders make of a YAML file, and a namespace of such. *)
Definition config (path : string) (doc : json) : @ConfigFile libraries :=
  @Build_ConfigFile libraries path doc.

Definition namespace (sc : @ConfigFile libraries) (ss : json)
    (mc : list (@ConfigFile libraries)) (ms : option json)
  : @Namespace libraries :=
  @Build_Namespace libraries sc ss mc ms.

End Fixture.


(** * Properties *)

(** ** Strings *)

Lemma prefix_app (p s : string) : prefix p (p ++ s) = true.
Proof.
  induction p as [|c p IH]; simpl.
  - destruct s; reflexivity.
  - destruct (ascii_dec c c) as [_|ne]; [exact IH | now elim ne].
Qed.

Lemma prefix_is_substring (part s : string) :
  prefix part s = true -> is_substring part s = true.
Proof. intros H. destruct s; unfold is_substring; rewrite H; reflexivity. Qed.

Lemma is_substring_here (part s : string) : is_substring part (part ++ s) = true.
Proof. apply prefix_is_substring, prefix_app. Qed.

Lemma is_substring_later (part a s : string) :
  is_substring part s = true -> is_substring part (a ++ s) = true.
Proof.
  intros H. induction a as [|c a IH]; simpl; [exact H|].
  rewrite IH. apply orb_true_r.
Qed.

(** [part] is found behind any number of leading pieces of a message. *)
Ltac find_part :=
  repeat first
    [ apply is_substring_here
    | apply is_substring_later ].

(** ** The monad and the validator *)

Section Runner.
Context {L : Libraries}.

Lemma config_validation_eq (d s : pyobject) (w : world) :
  config_validation d s w =
  match jsonschema_validate d s with
  | Passed => (Returns (true, None), after_call w (called d s))
  | RaisesValidationError err =>
      (Returns (false, Some err), after_call w (called d s))
  | RaisesSchemaError err =>
      (Raises (SchemaError err), after_call w (called d s))
  end.
Proof.
  unfold config_validation, try_except, bind, jsonschema_validate_call, ret.
  destruct (jsonschema_validate d s); reflexivity.
Qed.

Lemma world_eq (r r' : list LogRecord) (v v' : list validate_call) :
  r = r' -> v = v' ->
  {| records := r; validations := v |} = {| records := r'; validations := v' |}.
Proof. now intros -> ->. Qed.

(** The loop when the service config conforms: one validation per mirror
    config, nothing logged, the exit code kept. *)
Lemma loop_passed (a : Namespace) (todo : list ConfigFile) :
  call_result (service_call a) = Passed ->
  forall (code : Z) (w : world),
    for_mirror_config a todo code w =
    (Returns code,
     {| records := records w;
        validations := validations w ++ repeat (service_call a) (length todo) |}).
Proof.
  intros H. induction todo as [|m rest IH]; intros code w; simpl.
  - unfold ret. f_equal. destruct w; simpl. now rewrite app_nil_r.
  - unfold bind at 1. rewrite config_validation_eq.
    simpl in H. rewrite H. simpl.
    unfold bind at 1. unfold ret at 1. rewrite IH. f_equal.
    apply world_eq; simpl; [reflexivity|].
    rewrite <- app_assoc. reflexivity.
Qed.

(** The loop when the service config violates its schema: every mirror
    config still to visit is visited and gets its error line. *)
Lemma loop_failed (a : Namespace) (err : string) (todo : list ConfigFile) :
  call_result (service_call a) = RaisesValidationError err ->
  forall (code : Z) (w : world),
    for_mirror_config a todo code w =
    (Returns (match todo with [] => code | _ :: _ => 1%Z end),
     {| records := records w ++ map (mirror_error err) todo;
        validations := validations w ++ repeat (service_call a) (length todo) |}).
Proof.
  intros H. induction todo as [|m rest IH]; intros code w; simpl.
  - unfold ret. f_equal. destruct w; simpl. now rewrite !app_nil_r.
  - unfold bind at 1. rewrite config_validation_eq.
    simpl in H. rewrite H. simpl.
    unfold bind at 1. unfold bind at 1.
    unfold logger_error, log, ret at 1. rewrite IH. f_equal.
    + now destruct rest.
    + apply world_eq; simpl; rewrite <- app_assoc; reflexivity.
Qed.

Lemma main_passed (a : Namespace) (w : world) :
  call_result (service_call a) = Passed ->
  main a w =
  (Raises (SystemExit 0),
   {| records := records w ++ [success_record];
      validations :=
        validations w ++ repeat (service_call a) (S (length (mirror_configs a))) |}).
Proof.
  intros H. unfold main.
  unfold bind at 1. rewrite config_validation_eq.
  pose proof H as H'. simpl in H'. rewrite H'. simpl.
  unfold bind at 1. unfold ret at 1.
  unfold bind at 1. rewrite (loop_passed a _ H).
  unfold bind at 1. simpl. unfold logger_info, log, exit, raise.
  f_equal. apply world_eq; simpl; [reflexivity|].
  rewrite <- app_assoc. reflexivity.
Qed.

Lemma main_failed (a : Namespace) (err : string) (w : world) :
  call_result (service_call a) = RaisesValidationError err ->
  main a w =
  (Raises (SystemExit 1),
   {| records := records w ++ [main_error a err];
      validations := validations w ++ [service_call a] |}).
Proof.
  intros H. unfold main.
  unfold bind at 1. rewrite config_validation_eq.
  simpl in H. rewrite H. simpl.
  unfold bind at 1. unfold bind at 1.
  unfold logger_error, log, exit, raise. reflexivity.
Qed.

Lemma main_schema_error (a : Namespace) (err : string) (w : world) :
  call_result (service_call a) = RaisesSchemaError err ->
  main a w =
  (Raises (SchemaError err),
   {| records := records w;
      validations := validations w ++ [service_call a] |}).
Proof.
  intros H. unfold main.
  unfold bind at 1. rewrite config_validation_eq.
  simpl in H. rewrite H. reflexivity.
Qed.

End Runner.

(** ** The command line *)

Section CommandLine.
Context {L : Libraries}.
Variable fs : FileSystem.

Lemma split_at_first {A} (l1 l2 before after : list A) (f : A) :
  (l1 ++ l2 = before ++ f :: after)%list ->
  (exists after', l1 = before ++ f :: after')%list \/
  (exists before', before = l1 ++ before' /\ l2 = before' ++ f :: after)%list.
Proof.
  revert before. induction l1 as [|x l1 IH]; intros before E; simpl in E.
  - right. exists before. split; [reflexivity | exact E].
  - destruct before as [|b before]; simpl in E.
    + injection E as -> _. left. exists l1. reflexivity.
    + injection E as -> E. destruct (IH _ E) as [[a' ->] | [b' [-> ->]]].
      * left. exists a'. reflexivity.
      * right. exists b'. split; reflexivity.
Qed.

Lemma YamlFileType_loads (p : string) :
  loads fs (YAML, p) <-> exists c, YamlFileType_call fs p = Converted c.
Proof.
  unfold loads, YamlFileType_call; simpl.
  destruct (fs p) as [st|msg].
  - destruct (yaml_safe_load (content st)) as [v|err]; split.
    + intros _. eexists. reflexivity.
    + intros _. exists v. reflexivity.
    + intros [v H]. discriminate H.
    + intros [c H]. discriminate H.
  - split; [intros [] | intros [c H]; discriminate H].
Qed.

Lemma JsonFileType_loads (p : string) :
  loads fs (JSON, p) <-> exists j, JsonFileType_call fs p = Converted j.
Proof.
  unfold loads, JsonFileType_call; simpl.
  destruct (fs p) as [st|msg].
  - destruct (json_load (content st)) as [v|err]; split.
    + intros _. eexists. reflexivity.
    + intros _. exists v. reflexivity.
    + intros [v H]. discriminate H.
    + intros [c H]. discriminate H.
  - split; [intros [] | intros [c H]; discriminate H].
Qed.

Lemma YamlFileType_malformed (p : string) (st : file_stream) (err : string) :
  malformed fs (YAML, p) st err ->
  exists msg, YamlFileType_call fs p = ArgumentTypeError msg /\
              forall option_strings, tells (argument_error option_strings msg) st err.
Proof.
  intros [Hopen Hload]; simpl in *. unfold YamlFileType_call.
  rewrite Hopen, Hload. eexists. split; [reflexivity|].
  intros o. unfold tells, argument_error. split; find_part.
Qed.

Lemma JsonFileType_malformed (p : string) (st : file_stream) (err : string) :
  malformed fs (JSON, p) st err ->
  exists msg, JsonFileType_call fs p = ArgumentTypeError msg /\
              forall option_strings, tells (argument_error option_strings msg) st err.
Proof.
  intros [Hopen Hload]; simpl in *. unfold JsonFileType_call.
  rewrite Hopen, Hload. eexists. split; [reflexivity|].
  intros o. unfold tells, argument_error. split; find_part.
Qed.

Lemma convert_each_loads (paths : list string) :
  Forall (loads fs) (map (pair YAML) paths) <->
  exists cs, convert_each fs paths = Converted cs.
Proof.
  induction paths as [|p rest IH]; simpl.
  - split; [intros _; eexists; reflexivity | constructor].
  - split.
    + intros H. inversion H as [|? ? Hp Hrest]; subst.
      apply YamlFileType_loads in Hp as [c ->].
      apply IH in Hrest as [cs ->]. eexists. reflexivity.
    + intros [cs H].
      destruct (YamlFileType_call fs p) as [c|msg] eqn:Ep; [|discriminate H].
      destruct (convert_each fs rest) as [cs'|msg] eqn:Er; [|discriminate H].
      constructor.
      * apply YamlFileType_loads. exists c. exact Ep.
      * apply IH. exists cs'. reflexivity.
Qed.

Lemma convert_each_malformed (paths : list string) :
  forall before f after st err,
    map (pair YAML) paths = (before ++ f :: after)%list ->
    Forall (loads fs) before ->
    malformed fs f st err ->
    exists msg, convert_each fs paths = ArgumentTypeError msg /\
                forall option_strings, tells (argument_error option_strings msg) st err.
Proof.
  induction paths as [|p rest IH]; intros before f after st err E Hb Hf.
  - destruct before; discriminate E.
  - destruct before as [|b before]; simpl in E.
    + injection E as <- _. simpl.
      destruct (YamlFileType_malformed _ _ _ Hf) as [msg [-> Hmsg]].
      exists msg. split; [reflexivity | exact Hmsg].
    + injection E as <- E. inversion Hb as [|? ? Hp Hrest]; subst. simpl.
      apply YamlFileType_loads in Hp as [c ->].
      destruct (IH _ _ _ _ _ E Hrest Hf) as [msg [-> Hmsg]].
      exists msg. split; [reflexivity | exact Hmsg].
Qed.

Lemma take_action_loads (o : cli_option) (ns : parsing) :
  Forall (loads fs) (input_files_of o) <->
  exists ns', take_action fs o ns = Converted ns'.
Proof.
  destruct o as [p|p|p more|p]; simpl.
  - split.
    + intros H. inversion H as [|? ? Hp _]; subst.
      apply YamlFileType_loads in Hp as [c ->]. eexists. reflexivity.
    + intros [ns' H]. constructor; [|constructor].
      apply YamlFileType_loads.
      destruct (YamlFileType_call fs p) as [c|msg]; [|discriminate H].
      exists c. reflexivity.
  - split.
    + intros H. inversion H as [|? ? Hp _]; subst.
      apply JsonFileType_loads in Hp as [c ->]. eexists. reflexivity.
    + intros [ns' H]. constructor; [|constructor].
      apply JsonFileType_loads.
      destruct (JsonFileType_call fs p) as [c|msg]; [|discriminate H].
      exists c. reflexivity.
  - change (Forall (loads fs) (map (pair YAML) (p :: more)) <->
            exists ns',
              match convert_each fs (p :: more) with
              | Converted cs =>
                  Converted {| seen_sc := seen_sc ns; seen_ss := seen_ss ns;
                               dest_mc := cs; dest_ms := dest_ms ns |}
              | ArgumentTypeError msg =>
                  ArgumentTypeError (argument_error "-mc/--mirror-configs" msg)
              end = Converted ns').
    rewrite convert_each_loads. split.
    + intros [cs ->]. eexists. reflexivity.
    + intros [ns' H].
      destruct (convert_each fs (p :: more)) as [cs|msg]; [|discriminate H].
      exists cs. reflexivity.
  - split.
    + intros H. inversion H as [|? ? Hp _]; subst.
      apply JsonFileType_loads in Hp as [c ->]. eexists. reflexivity.
    + intros [ns' H]. constructor; [|constructor].
      apply JsonFileType_loads.
      destruct (JsonFileType_call fs p) as [c|msg]; [|discriminate H].
      exists c. reflexivity.
Qed.

Lemma single_file {A} (x f : A) (before after : list A) :
  [x] = (before ++ f :: after)%list -> f = x.
Proof.
  destruct before as [|b before]; simpl; intros E.
  - now injection E.
  - injection E as _ E. destruct before; discriminate E.
Qed.

Lemma take_action_malformed (o : cli_option) (ns : parsing) :
  forall before f after st err,
    input_files_of o = (before ++ f :: after)%list ->
    Forall (loads fs) before ->
    malformed fs f st err ->
    exists msg, take_action fs o ns = ArgumentTypeError msg /\ tells msg st err.
Proof.
  intros before f after st err E Hb Hf.
  destruct o as [p|p|p more|p].
  - apply single_file in E. subst f. simpl.
    destruct (YamlFileType_malformed _ _ _ Hf) as [msg [-> Hmsg]].
    eexists. split; [reflexivity | apply Hmsg].
  - apply single_file in E. subst f. simpl.
    destruct (JsonFileType_malformed _ _ _ Hf) as [msg [-> Hmsg]].
    eexists. split; [reflexivity | apply Hmsg].
  - change (input_files_of (Opt_mc p more))
      with (map (pair YAML) (p :: more)) in E.
    destruct (convert_each_malformed _ _ _ _ _ _ E Hb Hf) as [msg [Hc Hmsg]].
    unfold take_action. rewrite Hc.
    eexists. split; [reflexivity | apply Hmsg].
  - apply single_file in E. subst f. simpl.
    destruct (JsonFileType_malformed _ _ _ Hf) as [msg [-> Hmsg]].
    eexists. split; [reflexivity | apply Hmsg].
Qed.

(** A command line that parses has loaded every one of its input files. *)
Lemma consume_parsed_loads (argv : list cli_option) :
  forall ns a, consume fs argv ns = Parsed a ->
               Forall (loads fs) (input_files argv).
Proof.
  induction argv as [|o rest IH]; intros ns a H; simpl in *.
  - constructor.
  - destruct (take_action fs o ns) as [ns'|msg] eqn:E; [|discriminate H].
    apply Forall_app. split.
    + apply (take_action_loads o ns). exists ns'. exact E.
    + apply (IH _ _ H).
Qed.

(** The first input file that does not load ends the parsing, and the
    message is the one of its loader. *)
Lemma consume_malformed (argv : list cli_option) :
  forall ns before f after st err,
    input_files argv = (before ++ f :: after)%list ->
    Forall (loads fs) before ->
    malformed fs f st err ->
    exists msg, consume fs argv ns = ParserError msg /\ tells msg st err.
Proof.
  induction argv as [|o rest IH]; intros ns before f after st err E Hb Hf.
  - destruct before; discriminate E.
  - simpl in E. unfold input_files in IH.
    destruct (split_at_first _ _ _ _ _ E) as [[a' E1] | [b' [-> E2]]].
    + destruct (take_action_malformed o ns _ _ _ _ _ E1 Hb Hf) as [msg [Ht Hmsg]].
      simpl. rewrite Ht. exists msg. split; [reflexivity | exact Hmsg].
    + apply Forall_app in Hb as [Ho Hb'].
      apply (take_action_loads o ns) in Ho as [ns' Ht].
      simpl. rewrite Ht. apply (IH ns' _ _ _ _ _ E2 Hb' Hf).
Qed.

Lemma malformed_not_loads (f : file_format * string) (st : file_stream)
    (err : string) :
  malformed fs f st err -> ~ loads fs f.
Proof.
  intros [Hopen Hload] H. unfold loads in H. rewrite Hopen in H.
  destruct (fst f); destruct H as [v H]; rewrite Hload in H; discriminate H.
Qed.

End CommandLine.

(** ** What a run leaves behind *)

Section Runs.
Context {L : Libraries}.

Lemma execute_passed (clock : Clock) (a : Namespace) :
  call_result (service_call a) = Passed ->
  execute clock a =
  {| exit_status := 0; usage_error := None; traceback := None;
     logged := [success_record];
     log_lines := [format (clock 0) success_record];
     performed := repeat (service_call a) (S (length (mirror_configs a))) |}.
Proof. intros H. unfold execute. rewrite (main_passed a _ H). reflexivity. Qed.

Lemma execute_failed (clock : Clock) (a : Namespace) (err : string) :
  call_result (service_call a) = RaisesValidationError err ->
  execute clock a =
  {| exit_status := 1; usage_error := None; traceback := None;
     logged := [main_error a err];
     log_lines := [format (clock 0) (main_error a err)];
     performed := [service_call a] |}.
Proof. intros H. unfold execute. rewrite (main_failed a err _ H). reflexivity. Qed.

Lemma execute_schema_error (clock : Clock) (a : Namespace) (err : string) :
  call_result (service_call a) = RaisesSchemaError err ->
  execute clock a =
  {| exit_status := 1; usage_error := None; traceback := Some (SchemaError err);
     logged := []; log_lines := [];
     performed := [service_call a] |}.
Proof.
  intros H. unfold execute. rewrite (main_schema_error a err _ H). reflexivity.
Qed.

Lemma Forall_repeat {A} (P : A -> Prop) (x : A) (n : nat) :
  P x -> Forall P (repeat x n).
Proof. intros H. induction n; simpl; constructor; assumption. Qed.


Lemma execute_log_lines (clock : Clock) (a : Namespace) :
  log_lines (execute clock a) = emit clock 0 (logged (execute clock a)).
Proof. unfold execute. destruct (main a nothing_done). reflexivity. Qed.

(** Every validation [main] performs is the one of the service config
    against the service schema. *)
Lemma main_validates_service_only (clock : Clock) (a : Namespace) :
  Forall (fun c => c = service_call a) (performed (execute clock a)).
Proof.
  destruct (call_result (service_call a)) as [|err|err] eqn:E.
  - rewrite (execute_passed _ _ E). simpl. constructor; [reflexivity|].
    now apply Forall_repeat.
  - rewrite (execute_failed _ _ _ E). simpl. repeat constructor.
  - rewrite (execute_schema_error _ _ _ E). simpl. repeat constructor.
Qed.

End Runs.

(** ** The mirror schema is never read *)

Section MirrorSchema.
Context {L : Libraries}.

Lemma main_ignores_mirror_schema (a1 a2 : Namespace) :
  same_but_mirror_schema a1 a2 -> forall w, main a1 w = main a2 w.
Proof.
  destruct a1 as [sc1 ss1 mc1 ms1], a2 as [sc2 ss2 mc2 ms2].
  intros [Hsc [Hss Hmc]] w. simpl in *. subst sc2 ss2 mc2.
  set (a1 := {| service_config := sc1; service_config_json_schema := ss1;
                mirror_configs := mc1; mirror_config_json_schema := ms1 |}).
  set (a2 := {| service_config := sc1; service_config_json_schema := ss1;
                mirror_configs := mc1; mirror_config_json_schema := ms2 |}).
  destruct (call_result (service_call a1)) as [|err|err] eqn:E.
  - rewrite (main_passed a1 w E), (main_passed a2 w E). reflexivity.
  - rewrite (main_failed a1 err w E), (main_failed a2 err w E). reflexivity.
  - rewrite (main_schema_error a1 err w E), (main_schema_error a2 err w E).
    reflexivity.
Qed.

Lemma execute_ignores_mirror_schema (clock : Clock) (a1 a2 : Namespace) :
  same_but_mirror_schema a1 a2 -> execute clock a1 = execute clock a2.
Proof.
  intros H. unfold execute. rewrite (main_ignores_mirror_schema a1 a2 H).
  reflexivity.
Qed.

(** Reading the rest of a command line from two states that differ in the
    mirror schema gives the same error, or two namespaces that differ in
    the mirror schema. *)
Lemma consume_same_but_mirror_schema (fs : FileSystem) (argv : list cli_option) :
  forall n1 n2,
    parsing_same_but_mirror_schema n1 n2 ->
    match consume fs argv n1, consume fs argv n2 with
    | Parsed a1, Parsed a2 => same_but_mirror_schema a1 a2
    | ParserError m1, ParserError m2 => m1 = m2
    | _, _ => False
    end.
Proof.
  induction argv as [|o rest IH]; intros n1 n2 [Hsc [Hss Hmc]].
  - simpl. unfold required_seen. rewrite <- Hsc, <- Hss.
    destruct (seen_sc n1), (seen_ss n1); simpl; auto.
    repeat split. exact Hmc.
  - simpl. destruct o as [p|p|p more|p]; unfold take_action.
    + destruct (YamlFileType_call fs p); [|reflexivity].
      apply IH. repeat split; simpl; assumption.
    + destruct (JsonFileType_call fs p); [|reflexivity].
      apply IH. repeat split; simpl; assumption.
    + destruct (convert_each fs (p :: more)); [|reflexivity].
      apply IH. repeat split; simpl; assumption.
    + destruct (JsonFileType_call fs p); [|reflexivity].
      apply IH. repeat split; simpl; assumption.
Qed.

(** A [-ms] option whose file loads, anywhere on the command line, changes
    the mirror schema of the outcome at most. *)
Lemma consume_with_mirror_schema (fs : FileSystem) (p : string)
    (argv1 argv2 : list cli_option) :
  loads fs (JSON, p) ->
  forall ns,
    match consume fs (argv1 ++ Opt_ms p :: argv2) ns,
          consume fs (argv1 ++ argv2) ns with
    | Parsed a1, Parsed a2 => same_but_mirror_schema a1 a2
    | ParserError m1, ParserError m2 => m1 = m2
    | _, _ => False
    end.
Proof.
  intros Hp. apply JsonFileType_loads in Hp as [j Hj].
  induction argv1 as [|o rest IH]; intros ns.
  - simpl. rewrite Hj. apply consume_same_but_mirror_schema.
    repeat split.
  - simpl. destruct (take_action fs o ns); [apply IH | reflexivity].
Qed.

End MirrorSchema.

(** * The claims *)

Import Fixture.

(** ** Mirror configs *)

(** C1 (what the code does where the claim fails).  With a service config
    that conforms and a mirror config that lacks the required [name], no
    mirror schema given: the mirror's own data is never handed to the
    validator, all validations are of the service config, and the run ends
    with status 0 and the success line. *)
Theorem mirror_data_is_never_validated :
  let p := run_script (L := libraries) disk monday
             [Opt_sc "config.yml"; Opt_ss "schema.json";
              Opt_mc "mirror_b.yml" []] in
  jsonschema_validate (Libraries := libraries) nameless_doc schema_doc
    = RaisesValidationError "'name' is a required property" /\
  performed p = repeat (called (L := libraries) service_doc schema_doc) 2 /\
  logged p = [success_record] /\
  exit_status p = 0%Z.
Proof. vm_compute. repeat split. Qed.

(** C2 (what the code does where the claim fails).  Service config valid,
    two mirror configs of which the second violates the schema: the run
    ends with status 0, logs no error line and logs the success line; the
    loop runs twice, both times on the service config. *)
Theorem invalid_mirror_of_two_goes_unreported :
  let p := run_script (L := libraries) disk monday
             [Opt_sc "config.yml"; Opt_ss "schema.json";
              Opt_mc "mirror_a.yml" ["mirror_b.yml"]] in
  exit_status p = 0%Z /\
  error_lines (logged p) = 0 /\
  logged p = [success_record] /\
  performed p = repeat (called (L := libraries) service_doc schema_doc) 3.
Proof. vm_compute. repeat split. Qed.

(** ** Exit status *)



(** ** Recovery from validation failures *)

(** C4 (amended).  A validation failure of the service config is final:
    [main] logs the error and exits with status 1 at once, after that one
    validation and whatever mirror configs were supplied.  Inside the
    mirror loop a failed check is recoverable: every mirror config still to
    visit is visited, each gets one validation and one error line naming
    its path, and the exit code the loop hands back is 1. *)
Theorem failure_is_final_for_service_and_recoverable_in_loop {L : Libraries}
    (a : Namespace) (err : string) :
  jsonschema_validate (config_data (service_config a))
                      (service_config_json_schema a)
    = RaisesValidationError err ->
  (forall w,
      main a w =
      (Raises (SystemExit 1),
       {| records := records w ++ [main_error a err];
          validations := validations w ++ [service_call a] |})) /\
  (forall todo code w,
      for_mirror_config a todo code w =
      (Returns (match todo with [] => code | _ :: _ => 1%Z end),
       {| records := records w ++ map (mirror_error err) todo;
          validations :=
            validations w ++ repeat (service_call a) (length todo) |})).
Proof.
  intros H. split.
  - intros w. now apply main_failed.
  - intros todo code w. now apply loop_failed.
Qed.

Lemma failure_is_final_for_service_and_recoverable_in_loop_witness :
  let a := namespace (config "nameless.yml" nameless_doc) schema_doc
             [config "mirror_a.yml" mirror_doc; config "mirror_b.yml" nameless_doc]
             None in
  let err := "'name' is a required property" in
  (forall w,
      main a w =
      (Raises (SystemExit 1),
       {| records := records w ++ [main_error a err];
          validations := validations w ++ [service_call a] |})) /\
  (forall todo code w,
      for_mirror_config a todo code w =
      (Returns (match todo with [] => code | _ :: _ => 1%Z end),
       {| records := records w ++ map (mirror_error err) todo;
          validations :=
            validations w ++ repeat (service_call a) (length todo) |})).
Proof.
  apply (failure_is_final_for_service_and_recoverable_in_loop (L := libraries)).
  reflexivity.
Defined.

(** C4 (as stated, refuted).  The service config lacks the required [name]
    and two mirror configs are supplied: the run stops after the one
    validation of the service config, with status 1 and the error line of
    the service config alone; neither mirror config is looked at. *)
Lemma service_failure_ends_the_run :
  let p := run_script (L := libraries) disk monday
             [Opt_sc "nameless.yml"; Opt_ss "schema.json";
              Opt_mc "mirror_a.yml" ["mirror_b.yml"]] in
  exit_status p = 1%Z /\
  performed p = [called (L := libraries) nameless_doc schema_doc] /\
  Exists failed (performed p) /\
  logged p =
    [{| levelno := ERROR;
        message := main_config_invalid "nameless.yml"
                     "'name' is a required property" |}].
Proof.
  vm_compute. repeat split.
  constructor. eexists. reflexivity.
Qed.

(** ** The validator *)

(** C5 (amended).  [config_validation] returns [(True, None)] exactly when
    the document conforms to the schema.  When [jsonschema.validate]
    raises [ValidationError] it returns [(False, str(err))], a description that is
    not empty, and does not raise: a [ValidationError] never escapes.  When
    the schema itself is refused, the [SchemaError] of
    [jsonschema.validate] is not caught and escapes.  In each case one
    validation is performed and nothing is logged.  (That [str(err)] is
    not empty is a fact of the library, taken as a hypothesis.) *)
Theorem config_validation_catches_ValidationError_only {L : Libraries}
    (document schema : pyobject) (w : world) :
  (forall err, jsonschema_validate document schema = RaisesValidationError err ->
               err <> EmptyString) ->
  (fst (config_validation document schema w) = Returns (true, None)
   <-> conforms document schema) /\
  (forall err,
      jsonschema_validate document schema = RaisesValidationError err ->
      fst (config_validation document schema w) = Returns (false, Some err) /\
      err <> EmptyString) /\
  (forall err,
      jsonschema_validate document schema = RaisesSchemaError err ->
      fst (config_validation document schema w) = Raises (SchemaError err)) /\
  (forall err,
      fst (config_validation document schema w) <> Raises (ValidationError err)) /\
  snd (config_validation document schema w) = after_call w (called document schema).
Proof.
  intros Htext. rewrite config_validation_eq. unfold conforms.
  destruct (jsonschema_validate document schema) as [|e|e] eqn:E; simpl;
    repeat split; intros; try congruence; try discriminate.
  apply Htext. congruence.
Qed.

Lemma config_validation_catches_ValidationError_only_witness :
  let r := config_validation (L := libraries) nameless_doc schema_doc nothing_done in
  (fst r = Returns (true, None) <-> conforms (L := libraries) nameless_doc schema_doc) /\
  (forall err,
      validate nameless_doc schema_doc = RaisesValidationError err ->
      fst r = Returns (false, Some err) /\ err <> EmptyString) /\
  (forall err,
      validate nameless_doc schema_doc = RaisesSchemaError err ->
      fst r = Raises (SchemaError err)) /\
  (forall err, fst r <> Raises (ValidationError err)) /\
  snd r = after_call nothing_done (called (L := libraries) nameless_doc schema_doc).
Proof.
  apply (config_validation_catches_ValidationError_only (L := libraries)
           nameless_doc schema_doc nothing_done).
  intros err H. vm_compute in H. injection H as <-. discriminate.
Defined.

(** C5 (as stated, refuted).  The schema file holds [{"required": 5}],
    which is JSON but no schema: the document does not conform, and
    [config_validation] neither returns [(False, message)] nor anything
    else: it raises [SchemaError]. *)
Lemma invalid_schema_escapes_config_validation :
  ~ conforms (L := libraries) service_doc not_a_schema_doc /\
  json_load (Libraries := libraries) not_a_schema_text = Value not_a_schema_doc /\
  fst (config_validation (L := libraries) service_doc not_a_schema_doc nothing_done)
    = Raises (SchemaError "the value of 'required' is not of type 'array'").
Proof.
  split; [|split].
  - unfold conforms. vm_compute. discriminate.
  - reflexivity.
  - reflexivity.
Qed.

(** ** Malformed input files *)

(** C6 (amended).  When an input file of the command line is malformed
    YAML or JSON, the process ends while the arguments are parsed, with
    the usage error and status 2, and performs no validation and logs
    nothing.  The message names the path and quotes the parser error of
    that file when every input file before it on the command line loads:
    the error reported is the one of the first file that fails. *)
Theorem malformed_input_file_aborts_parsing {L : Libraries}
    (fs : FileSystem) (clock : Clock) (argv : list cli_option)
    (f : file_format * string) (st : file_stream) (err : string) :
  In f (input_files argv) ->
  malformed fs f st err ->
  let p := run_script fs clock argv in
  (exists msg,
      usage_error p = Some msg /\ exit_status p = 2%Z /\
      performed p = [] /\ logged p = [] /\ log_lines p = []) /\
  (forall before after,
      input_files argv = (before ++ f :: after)%list ->
      Forall (loads fs) before ->
      exists msg, usage_error p = Some msg /\ tells msg st err).
Proof.
  intros Hin Hf p. subst p. unfold run_script, parse_args. split.
  - destruct (consume fs argv defaults) as [a|msg] eqn:E.
    + exfalso. apply (malformed_not_loads fs f st err Hf).
      pose proof (consume_parsed_loads fs argv _ _ E) as Hall.
      rewrite Forall_forall in Hall. now apply Hall.
    + exists msg. repeat split.
  - intros before after Hsplit Hbefore.
    destruct (consume_malformed fs argv defaults _ _ _ _ _ Hsplit Hbefore Hf)
      as [msg [-> Hmsg]].
    exists msg. split; [reflexivity | exact Hmsg].
Qed.

Lemma malformed_input_file_aborts_parsing_witness :
  let p := run_script (L := libraries) disk monday
             [Opt_sc "config.yml"; Opt_ss "broken.json"] in
  let f := (JSON, "broken.json") in
  let st := {| name := "broken.json"; content := broken_json_text |} in
  let err := "Expecting property name enclosed in double quotes: line 1 column 2 (char 1)" in
  (exists msg,
      usage_error p = Some msg /\ exit_status p = 2%Z /\
      performed p = [] /\ logged p = [] /\ log_lines p = []) /\
  (forall before after,
      input_files [Opt_sc "config.yml"; Opt_ss "broken.json"]
        = (before ++ f :: after)%list ->
      Forall (loads (L := libraries) disk) before ->
      exists msg, usage_error p = Some msg /\ tells msg st err).
Proof.
  apply (malformed_input_file_aborts_parsing (L := libraries) disk monday
           [Opt_sc "config.yml"; Opt_ss "broken.json"]
           (JSON, "broken.json")
           {| name := "broken.json"; content := broken_json_text |}
           "Expecting property name enclosed in double quotes: line 1 column 2 (char 1)").
  - simpl. right. left. reflexivity.
  - split; reflexivity.
Defined.

(** C6 (as stated, refuted).  Two input files are malformed.  The process
    ends in the parsing of the arguments, but the message is the one of
    [broken.yml], the first of the two: the path of the malformed
    [broken.json] and the error of the JSON parser are not in it. *)
Lemma second_malformed_file_is_not_named :
  let p := run_script (L := libraries) disk monday
             [Opt_sc "broken.yml"; Opt_ss "broken.json"] in
  malformed (L := libraries) disk (JSON, "broken.json")
    {| name := "broken.json"; content := broken_json_text |}
    "Expecting property name enclosed in double quotes: line 1 column 2 (char 1)" /\
  exists msg,
    usage_error p = Some msg /\
    is_substring "broken.yml" msg = true /\
    is_substring "broken.json" msg = false /\
    is_substring
      "Expecting property name enclosed in double quotes: line 1 column 2 (char 1)"
      msg = false.
Proof.
  split.
  - split; reflexivity.
  - eexists. split; [reflexivity|]. vm_compute. repeat split.
Qed.

(** ** The success line *)

(** C7 (amended).  The process logs exactly one informational line, the
    success line, if and only if the command line parsed and every
    validation performed succeeded; otherwise it logs none.  For a service
    config that conforms to its schema and no mirror config, the process
    ends with status 0 and its log is exactly the success line. *)
Theorem success_line_iff_parsed_and_all_succeeded {L : Libraries}
    (fs : FileSystem) (clock : Clock) (argv : list cli_option) :
  let p := run_script fs clock argv in
  (info_lines (logged p) = 1 <->
   (exists a, parse_args fs argv = Parsed a) /\ Forall succeeded (performed p)) /\
  (filter is_info (logged p) = [success_record] \/ filter is_info (logged p) = []) /\
  (forall a,
      parse_args fs argv = Parsed a ->
      conforms (config_data (service_config a)) (service_config_json_schema a) ->
      mirror_configs a = [] ->
      exit_status p = 0%Z /\ logged p = [success_record] /\
      log_lines p = [format (clock 0) success_record]).
Proof.
  intros p. subst p. unfold run_script.
  destruct (parse_args fs argv) as [a|msg] eqn:Hparse.
  - destruct (call_result (service_call a)) as [|err|err] eqn:E.
    + rewrite (execute_passed _ _ E). simpl. split; [|split].
      * split; [intros _ | reflexivity]. split; [now exists a|].
        constructor; [exact E | now apply Forall_repeat].
      * left. reflexivity.
      * intros a' Ha _ _. repeat split.
    + rewrite (execute_failed _ _ _ E). simpl. split; [|split].
      * split; [discriminate|]. intros [_ H].
        inversion H as [|? ? Hs _]; subst. unfold succeeded in Hs. congruence.
      * right. reflexivity.
      * intros a' Ha Hc _. injection Ha as <-. unfold conforms in Hc.
        unfold service_call in E. simpl in E. congruence.
    + rewrite (execute_schema_error _ _ _ E). simpl. split; [|split].
      * split; [discriminate|]. intros [_ H].
        inversion H as [|? ? Hs _]; subst. unfold succeeded in Hs. congruence.
      * right. reflexivity.
      * intros a' Ha Hc _. injection Ha as <-. unfold conforms in Hc.
        unfold service_call in E. simpl in E. congruence.
  - simpl. split; [|split].
    + split; [discriminate|]. intros [[a Ha] _]. discriminate Ha.
    + right. reflexivity.
    + intros a Ha. discriminate Ha.
Qed.

(** C7 (as stated, refuted).  In neither run does a validation fail, and
    neither logs the success line: the first ends in the parsing of a
    malformed service config, before any validation; in the second the
    schema file is no schema, and [main] ends in the [SchemaError] of the
    one validation it performs. *)
Lemma no_failure_and_no_success_line :
  (let p := run_script (L := libraries) disk monday
              [Opt_sc "broken.yml"; Opt_ss "schema.json"] in
   performed p = [] /\ ~ Exists failed (performed p) /\
   info_lines (logged p) = 0 /\ exit_status p = 2%Z) /\
  (let p := run_script (L := libraries) disk monday
              [Opt_sc "config.yml"; Opt_ss "not_a_schema.json"] in
   ~ Exists failed (performed p) /\
   info_lines (logged p) = 0 /\ exit_status p = 1%Z).
Proof.
  split.
  - vm_compute. repeat split. intros H. inversion H.
  - vm_compute. repeat split. intros H.
    inversion H as [? ? [e He]|? ? Hn]; [discriminate He | inversion Hn].
Qed.

(** ** Two runs on the same files *)



(** ** The mirror schema *)

(** C9.  The mirror schema has no effect.  With the service config, the
    service schema and the mirror configs fixed, [main] does the same
    (same exception, same validations, same log records) and the process
    ends the same (status, log lines) whichever mirror schema is given, or
    none.  On the command line: a [-ms] option whose file loads can be
    taken away and the run is the same. *)
Theorem mirror_schema_has_no_effect {L : Libraries}
    (clock : Clock) (sc : ConfigFile) (ss : pyobject) (mc : list ConfigFile)
    (ms ms' : option pyobject) :
  let given := {| service_config := sc; service_config_json_schema := ss;
                  mirror_configs := mc; mirror_config_json_schema := ms |} in
  let other := {| service_config := sc; service_config_json_schema := ss;
                  mirror_configs := mc; mirror_config_json_schema := ms' |} in
  (forall w, main given w = main other w) /\
  execute clock given = execute clock other /\
  (forall fs argv1 argv2 p,
      loads fs (JSON, p) ->
      run_script fs clock (argv1 ++ Opt_ms p :: argv2) =
      run_script fs clock (argv1 ++ argv2)).
Proof.
  intros given other.
  assert (H : same_but_mirror_schema given other) by (repeat split).
  split; [|split].
  - now apply main_ignores_mirror_schema.
  - now apply execute_ignores_mirror_schema.
  - intros fs argv1 argv2 p Hp. unfold run_script, parse_args.
    pose proof (consume_with_mirror_schema fs p argv1 argv2 Hp defaults) as Hc.
    destruct (consume fs (argv1 ++ Opt_ms p :: argv2) defaults) as [a1|m1],
             (consume fs (argv1 ++ argv2) defaults) as [a2|m2];
      try contradiction.
    + now apply execute_ignores_mirror_schema.
    + now subst m2.
Qed.

(** ** A conforming service config *)

(** C10.  In a run whose command line parses and whose service config
    conforms to the service schema, the process ends with status 0 and
    logs the success line and nothing else, whatever the mirror configs
    hold: the validations performed are the one of the service config
    against the service schema, once before the loop and once per mirror
    config, and each of them succeeds. *)
Theorem conforming_service_config_ends_with_success {L : Libraries}
    (fs : FileSystem) (clock : Clock) (argv : list cli_option) (a : Namespace) :
  parse_args fs argv = Parsed a ->
  conforms (config_data (service_config a)) (service_config_json_schema a) ->
  let p := run_script fs clock argv in
  exit_status p = 0%Z /\
  logged p = [success_record] /\
  log_lines p = [format (clock 0) success_record] /\
  performed p = repeat (service_call a) (S (length (mirror_configs a))) /\
  Forall succeeded (performed p).
Proof.
  intros Hparse Hc p. subst p. unfold run_script. rewrite Hparse.
  assert (E : call_result (service_call a) = Passed) by exact Hc.
  rewrite (execute_passed _ _ E). simpl. repeat split.
  constructor; [exact E | now apply Forall_repeat].
Qed.

Lemma conforming_service_config_ends_with_success_witness :
  let a := namespace (config "config.yml" service_doc) schema_doc
             [config "mirror_a.yml" mirror_doc; config "mirror_b.yml" nameless_doc]
             None in
  let p := run_script (L := libraries) disk monday
             [Opt_sc "config.yml"; Opt_ss "schema.json";
              Opt_mc "mirror_a.yml" ["mirror_b.yml"]] in
  exit_status p = 0%Z /\
  logged p = [success_record] /\
  log_lines p = [format (monday 0) success_record] /\
  performed p = repeat (service_call a) (S (length (mirror_configs a))) /\
  Forall succeeded (performed p).
Proof.
  apply (conforming_service_config_ends_with_success (L := libraries) disk monday
           [Opt_sc "config.yml"; Opt_ss "schema.json";
            Opt_mc "mirror_a.yml" ["mirror_b.yml"]]
           (namespace (config "config.yml" service_doc) schema_doc
              [config "mirror_a.yml" mirror_doc;
               config "mirror_b.yml" nameless_doc]
              None)).
  - reflexivity.
  - reflexivity.
Defined.

(** * Further properties of the script *)

(** ** What [parse_args] accepts *)

Section Accepts.
Context {L : Libraries}.
Variable fs : FileSystem.




End Accepts.

(** ** Where the namespace comes from *)

Section Origin.
Context {L : Libraries}.
Variable fs : FileSystem.

Lemma YamlFileType_yaml_of (p : string) (c : ConfigFile) :
  YamlFileType_call fs p = Converted c -> yaml_of fs p c.
Proof.
  unfold YamlFileType_call, yaml_of. intros H.
  destruct (fs p) as [st|msg]; [|discriminate H].
  destruct (yaml_safe_load (content st)) as [v|err] eqn:E; [|discriminate H].
  injection H as <-. exists st. repeat split. exact E.
Qed.

Lemma JsonFileType_json_of (p : string) (j : pyobject) :
  JsonFileType_call fs p = Converted j -> json_of fs p j.
Proof.
  unfold JsonFileType_call, json_of. intros H.
  destruct (fs p) as [st|msg]; [|discriminate H].
  destruct (json_load (content st)) as [v|err] eqn:E; [|discriminate H].
  injection H as <-. exists st. split; [reflexivity | exact E].
Qed.

Lemma convert_each_yaml_of (paths : list string) :
  forall cs, convert_each fs paths = Converted cs ->
             Forall2 (yaml_of fs) paths cs.
Proof.
  induction paths as [|p rest IH]; intros cs H; simpl in H.
  - injection H as <-. constructor.
  - destruct (YamlFileType_call fs p) as [c|msg] eqn:Ep; [|discriminate H].
    destruct (convert_each fs rest) as [cs'|msg]; [|discriminate H].
    injection H as <-. constructor.
    + now apply YamlFileType_yaml_of.
    + now apply IH.
Qed.

Lemma required_seen_fields (ns : parsing) (a : Namespace) :
  required_seen ns = Parsed a ->
  seen_sc ns = Some (service_config a) /\
  seen_ss ns = Some (service_config_json_schema a) /\
  dest_mc ns = mirror_configs a /\
  dest_ms ns = mirror_config_json_schema a.
Proof.
  unfold required_seen.
  destruct (seen_sc ns), (seen_ss ns); intros H; try discriminate H.
  injection H as <-. repeat split.
Qed.

(** The service config is the file of the last [-sc] option. *)
Lemma consume_service_config (argv : list cli_option) :
  forall ns a,
    consume fs argv ns = Parsed a ->
    (absent "service_config" argv /\ seen_sc ns = Some (service_config a)) \/
    (exists argv1 p argv2,
        argv = (argv1 ++ Opt_sc p :: argv2)%list /\
        absent "service_config" argv2 /\
        yaml_of fs p (service_config a)).
Proof.
  unfold absent. induction argv as [|o rest IH]; intros ns a H; simpl in H.
  - left. split; [constructor | apply (required_seen_fields _ _ H)].
  - destruct (take_action fs o ns) as [ns'|msg] eqn:E; [|discriminate H].
    destruct (IH _ _ H) as [[Hab Hseen] | [argv1 [p [argv2 [-> [Hab Hy]]]]]].
    + destruct o as [p|p|p more|p]; unfold take_action in E.
      * right. exists [], p, rest. repeat split; [exact Hab|].
        destruct (YamlFileType_call fs p) as [c|] eqn:Ep; [|discriminate E].
        injection E as <-. simpl in Hseen. injection Hseen as <-.
        now apply YamlFileType_yaml_of.
      * left. destruct (JsonFileType_call fs p); [|discriminate E].
        injection E as <-. split; [|exact Hseen].
        constructor; [discriminate | exact Hab].
      * left. destruct (convert_each fs (p :: more)); [|discriminate E].
        injection E as <-. split; [|exact Hseen].
        constructor; [discriminate | exact Hab].
      * left. destruct (JsonFileType_call fs p); [|discriminate E].
        injection E as <-. split; [|exact Hseen].
        constructor; [discriminate | exact Hab].
    + right. exists (o :: argv1), p, argv2. repeat split; assumption.
Qed.

(** The service schema is the file of the last [-ss] option. *)
Lemma consume_service_schema (argv : list cli_option) :
  forall ns a,
    consume fs argv ns = Parsed a ->
    (absent "service_config_json_schema" argv /\
     seen_ss ns = Some (service_config_json_schema a)) \/
    (exists argv1 p argv2,
        argv = (argv1 ++ Opt_ss p :: argv2)%list /\
        absent "service_config_json_schema" argv2 /\
        json_of fs p (service_config_json_schema a)).
Proof.
  unfold absent. induction argv as [|o rest IH]; intros ns a H; simpl in H.
  - left. split; [constructor | apply (required_seen_fields _ _ H)].
  - destruct (take_action fs o ns) as [ns'|msg] eqn:E; [|discriminate H].
    destruct (IH _ _ H) as [[Hab Hseen] | [argv1 [p [argv2 [-> [Hab Hy]]]]]].
    + destruct o as [p|p|p more|p]; unfold take_action in E.
      * left. destruct (YamlFileType_call fs p); [|discriminate E].
        injection E as <-. split; [|exact Hseen].
        constructor; [discriminate | exact Hab].
      * right. exists [], p, rest. repeat split; [exact Hab|].
        destruct (JsonFileType_call fs p) as [j|] eqn:Ep; [|discriminate E].
        injection E as <-. simpl in Hseen. injection Hseen as <-.
        now apply JsonFileType_json_of.
      * left. destruct (convert_each fs (p :: more)); [|discriminate E].
        injection E as <-. split; [|exact Hseen].
        constructor; [discriminate | exact Hab].
      * left. destruct (JsonFileType_call fs p); [|discriminate E].
        injection E as <-. split; [|exact Hseen].
        constructor; [discriminate | exact Hab].
    + right. exists (o :: argv1), p, argv2. repeat split; assumption.
Qed.

(** The mirror configs are the default or the files of the last [-mc]
    option, in their order. *)
Lemma consume_mirror_configs (argv : list cli_option) :
  forall ns a,
    consume fs argv ns = Parsed a ->
    (absent "mirror_configs" argv /\ dest_mc ns = mirror_configs a) \/
    (exists argv1 p more argv2,
        argv = (argv1 ++ Opt_mc p more :: argv2)%list /\
        absent "mirror_configs" argv2 /\
        Forall2 (yaml_of fs) (p :: more) (mirror_configs a)).
Proof.
  unfold absent. induction argv as [|o rest IH]; intros ns a H; simpl in H.
  - left. split; [constructor | apply (required_seen_fields _ _ H)].
  - destruct (take_action fs o ns) as [ns'|msg] eqn:E; [|discriminate H].
    destruct (IH _ _ H)
      as [[Hab Hseen] | [argv1 [p [more [argv2 [-> [Hab Hy]]]]]]].
    + destruct o as [p|p|p more|p]; unfold take_action in E.
      * left. destruct (YamlFileType_call fs p); [|discriminate E].
        injection E as <-. split; [|exact Hseen].
        constructor; [discriminate | exact Hab].
      * left. destruct (JsonFileType_call fs p); [|discriminate E].
        injection E as <-. split; [|exact Hseen].
        constructor; [discriminate | exact Hab].
      * right. exists [], p, more, rest. repeat split; [exact Hab|].
        destruct (convert_each fs (p :: more)) as [cs|] eqn:Ep;
          [|discriminate E].
        injection E as <-. simpl in Hseen. subst cs.
        now apply convert_each_yaml_of.
      * left. destruct (JsonFileType_call fs p); [|discriminate E].
        injection E as <-. split; [|exact Hseen].
        constructor; [discriminate | exact Hab].
    + right. exists (o :: argv1), p, more, argv2. repeat split; assumption.
Qed.

(** The mirror schema is the default or the file of the last [-ms]
    option. *)
Lemma consume_mirror_schema (argv : list cli_option) :
  forall ns a,
    consume fs argv ns = Parsed a ->
    (absent "mirror_config_json_schema" argv /\
     dest_ms ns = mirror_config_json_schema a) \/
    (exists argv1 p argv2 j,
        argv = (argv1 ++ Opt_ms p :: argv2)%list /\
        absent "mirror_config_json_schema" argv2 /\
        mirror_config_json_schema a = Some j /\ json_of fs p j).
Proof.
  unfold absent. induction argv as [|o rest IH]; intros ns a H; simpl in H.
  - left. split; [constructor | apply (required_seen_fields _ _ H)].
  - destruct (take_action fs o ns) as [ns'|msg] eqn:E; [|discriminate H].
    destruct (IH _ _ H)
      as [[Hab Hseen] | [argv1 [p [argv2 [j [-> [Hab Hy]]]]]]].
    + destruct o as [p|p|p more|p]; unfold take_action in E.
      * left. destruct (YamlFileType_call fs p); [|discriminate E].
        injection E as <-. split; [|exact Hseen].
        constructor; [discriminate | exact Hab].
      * left. destruct (JsonFileType_call fs p); [|discriminate E].
        injection E as <-. split; [|exact Hseen].
        constructor; [discriminate | exact Hab].
      * left. destruct (convert_each fs (p :: more)); [|discriminate E].
        injection E as <-. split; [|exact Hseen].
        constructor; [discriminate | exact Hab].
      * right. destruct (JsonFileType_call fs p) as [j|] eqn:Ep;
          [|discriminate E].
        injection E as <-. simpl in Hseen.
        exists [], p, rest, j. repeat split;
          [exact Hab | now symmetry | now apply JsonFileType_json_of].
    + right. exists (o :: argv1), p, argv2, j. repeat split; tauto.
Qed.

End Origin.

(** ** The order of the options *)

Section Order.
Context {L : Libraries}.
Variable fs : FileSystem.




End Order.

(** ** The mirror loop *)

Section Loop.
Context {L : Libraries}.

Lemma bind_bind {A B C} (m : M A) (f : A -> M B) (g : B -> M C) (w : world) :
  bind (bind m f) g w = bind m (fun x => bind (f x) g) w.
Proof. unfold bind. destruct (m w) as [[x|e] w']; reflexivity. Qed.

Lemma bind_cong {A B} (m : M A) (f g : A -> M B) (w : world) :
  (forall x w', f x w' = g x w') -> bind m f w = bind m g w.
Proof.
  intros H. unfold bind. destruct (m w) as [[x|e] w']; [apply H | reflexivity].
Qed.

(** The loop over two lists, one after the other, is the loop over the
    first followed by the loop over the second. *)
Lemma for_mirror_config_app_at (a : Namespace) (todo1 todo2 : list ConfigFile) :
  forall code w,
    for_mirror_config a (todo1 ++ todo2) code w =
    bind (for_mirror_config a todo1 code) (for_mirror_config a todo2) w.
Proof.
  induction todo1 as [|m rest IH]; intros code w.
  - reflexivity.
  - simpl. rewrite bind_bind. apply bind_cong. intros r w1.
    rewrite bind_bind. apply bind_cong. intros c w2. apply IH.
Qed.

(** The loop when the schema itself is refused: the first check raises. *)
Lemma loop_schema_error (a : Namespace) (err : string)
    (m : ConfigFile) (rest : list ConfigFile) (code : Z) (w : world) :
  call_result (service_call a) = RaisesSchemaError err ->
  for_mirror_config a (m :: rest) code w =
  (Raises (SchemaError err), after_call w (service_call a)).
Proof.
  intros H. simpl. unfold bind at 1. rewrite config_validation_eq.
  simpl in H. rewrite H. reflexivity.
Qed.

End Loop.

(** ** Required options *)

Section Required.
Context {L : Libraries}.
Variable fs : FileSystem.


End Required.

(** * Further properties: the statements *)

(** ** The parser *)




(** X3.  In the namespace of a command line that parses, the service config
    and the service schema are what the loaders made of the files of the
    last [-sc] and of the last [-ss] option: the path kept with the service
    config is the name of that file and its data is the parsed text. *)
Theorem required_files_are_the_last_given {L : Libraries}
    (fs : FileSystem) (argv : list cli_option) (a : Namespace) :
  parse_args fs argv = Parsed a ->
  (exists argv1 p argv2,
      argv = (argv1 ++ Opt_sc p :: argv2)%list /\
      absent "service_config" argv2 /\
      yaml_of fs p (service_config a)) /\
  (exists argv1 p argv2,
      argv = (argv1 ++ Opt_ss p :: argv2)%list /\
      absent "service_config_json_schema" argv2 /\
      json_of fs p (service_config_json_schema a)).
Proof.
  intros H. unfold parse_args in H. split.
  - destruct (consume_service_config fs argv _ _ H) as [[_ Hd] | Hex];
      [discriminate Hd | exact Hex].
  - destruct (consume_service_schema fs argv _ _ H) as [[_ Hd] | Hex];
      [discriminate Hd | exact Hex].
Qed.

Lemma required_files_are_the_last_given_witness :
  let argv := [Opt_sc "nameless.yml"; Opt_ss "schema.json"; Opt_sc "config.yml"] in
  let a := namespace (config "config.yml" service_doc) schema_doc [] None in
  (exists argv1 p argv2,
      argv = (argv1 ++ Opt_sc p :: argv2)%list /\
      absent "service_config" argv2 /\
      yaml_of (L := libraries) disk p (service_config a)) /\
  (exists argv1 p argv2,
      argv = (argv1 ++ Opt_ss p :: argv2)%list /\
      absent "service_config_json_schema" argv2 /\
      json_of (L := libraries) disk p (service_config_json_schema a)).
Proof.
  apply (required_files_are_the_last_given (L := libraries) disk
           [Opt_sc "nameless.yml"; Opt_ss "schema.json"; Opt_sc "config.yml"]
           (namespace (config "config.yml" service_doc) schema_doc [] None)).
  reflexivity.
Defined.

(** X4.  In the namespace of a command line that parses, the mirror configs
    are the empty list when there is no [-mc] option, and otherwise what
    [YamlFileType] made of the files of the last [-mc] option, one per
    path and in the order of the paths: an earlier [-mc] option adds
    nothing.  The mirror schema is [None] without [-ms] and otherwise the
    parsed file of the last [-ms] option. *)
Theorem optional_files_are_default_or_last_given {L : Libraries}
    (fs : FileSystem) (argv : list cli_option) (a : Namespace) :
  parse_args fs argv = Parsed a ->
  ((absent "mirror_configs" argv /\ mirror_configs a = []) \/
   (exists argv1 p more argv2,
       argv = (argv1 ++ Opt_mc p more :: argv2)%list /\
       absent "mirror_configs" argv2 /\
       Forall2 (yaml_of fs) (p :: more) (mirror_configs a))) /\
  ((absent "mirror_config_json_schema" argv /\
    mirror_config_json_schema a = None) \/
   (exists argv1 p argv2 j,
       argv = (argv1 ++ Opt_ms p :: argv2)%list /\
       absent "mirror_config_json_schema" argv2 /\
       mirror_config_json_schema a = Some j /\ json_of fs p j)).
Proof.
  intros H. unfold parse_args in H. split.
  - destruct (consume_mirror_configs fs argv _ _ H) as [[Hab Hd] | Hex];
      [left; split; [exact Hab | now symmetry] | right; exact Hex].
  - destruct (consume_mirror_schema fs argv _ _ H) as [[Hab Hd] | Hex];
      [left; split; [exact Hab | now symmetry] | right; exact Hex].
Qed.

Lemma optional_files_are_default_or_last_given_witness :
  let argv := [Opt_mc "mirror_b.yml" []; Opt_sc "config.yml";
               Opt_mc "mirror_a.yml" ["mirror_b.yml"]; Opt_ss "schema.json"] in
  let a := namespace (config "config.yml" service_doc) schema_doc
             [config "mirror_a.yml" mirror_doc; config "mirror_b.yml" nameless_doc]
             None in
  ((absent "mirror_configs" argv /\ mirror_configs a = []) \/
   (exists argv1 p more argv2,
       argv = (argv1 ++ Opt_mc p more :: argv2)%list /\
       absent "mirror_configs" argv2 /\
       Forall2 (yaml_of (L := libraries) disk) (p :: more) (mirror_configs a))) /\
  ((absent "mirror_config_json_schema" argv /\
    mirror_config_json_schema a = None) \/
   (exists argv1 p argv2 j,
       argv = (argv1 ++ Opt_ms p :: argv2)%list /\
       absent "mirror_config_json_schema" argv2 /\
       mirror_config_json_schema a = Some j /\
       json_of (L := libraries) disk p j)).
Proof.
  apply (optional_files_are_default_or_last_given (L := libraries) disk
           [Opt_mc "mirror_b.yml" []; Opt_sc "config.yml";
            Opt_mc "mirror_a.yml" ["mirror_b.yml"]; Opt_ss "schema.json"]
           (namespace (config "config.yml" service_doc) schema_doc
              [config "mirror_a.yml" mirror_doc;
               config "mirror_b.yml" nameless_doc]
              None)).
  reflexivity.
Defined.



(** ** The runner *)

(** X6.  A run logs one line at most: nothing, the success line, or the
    error line of the service config.  The error line of a mirror config
    is never logged, whatever the mirror configs hold. *)
Theorem log_is_one_line_at_most {L : Libraries}
    (fs : FileSystem) (clock : Clock) (argv : list cli_option) :
  let p := run_script fs clock argv in
  (logged p = [] \/
   logged p = [success_record] \/
   exists a err, parse_args fs argv = Parsed a /\ logged p = [main_error a err]) /\
  (forall r, In r (logged p) -> forall err c, r <> mirror_error err c) /\
  length (log_lines p) = length (logged p).
Proof.
  intros p. subst p. unfold run_script.
  destruct (parse_args fs argv) as [a|msg] eqn:Hparse.
  - destruct (call_result (service_call a)) as [|err|err] eqn:E.
    + rewrite (execute_passed _ _ E). simpl. repeat split.
      * right. left. reflexivity.
      * intros r [<-|[]] e c H. discriminate H.
    + rewrite (execute_failed _ _ _ E). simpl. repeat split.
      * right. right. exists a, err. split; reflexivity.
      * intros r [<-|[]] e c H. unfold main_error, mirror_error in H.
        injection H as H. unfold main_config_invalid, mirror_config_invalid in H.
        simpl in H. discriminate H.
    + rewrite (execute_schema_error _ _ _ E). simpl. repeat split.
      * left. reflexivity.
      * intros r [].
  - simpl. repeat split.
    + left. reflexivity.
    + intros r [].
Qed.

(** X7.  In a run whose command line parses, every validation performed is
    the one of the service config's data against the service schema; there
    is one of them when it does not succeed, and one more per mirror config
    when it does.  The data of the mirror configs is loaded and never
    validated. *)
Theorem validations_are_of_the_service_config {L : Libraries}
    (fs : FileSystem) (clock : Clock) (argv : list cli_option) (a : Namespace) :
  parse_args fs argv = Parsed a ->
  let p := run_script fs clock argv in
  Forall (fun c => c = service_call a) (performed p) /\
  (succeeded (service_call a) ->
   length (performed p) = S (length (mirror_configs a))) /\
  (~ succeeded (service_call a) -> length (performed p) = 1).
Proof.
  intros Hparse p. subst p. unfold run_script. rewrite Hparse.
  split; [apply main_validates_service_only|]. unfold succeeded.
  destruct (call_result (service_call a)) as [|err|err] eqn:E.
  - rewrite (execute_passed _ _ E). simpl. split.
    + intros _. now rewrite repeat_length.
    + intros H. now elim H.
  - rewrite (execute_failed _ _ _ E). simpl. split;
      [discriminate | reflexivity].
  - rewrite (execute_schema_error _ _ _ E). simpl. split;
      [discriminate | reflexivity].
Qed.

Lemma validations_are_of_the_service_config_witness :
  let a := namespace (config "config.yml" service_doc) schema_doc
             [config "mirror_a.yml" mirror_doc; config "mirror_b.yml" nameless_doc]
             None in
  let p := run_script (L := libraries) disk monday
             [Opt_sc "config.yml"; Opt_ss "schema.json";
              Opt_mc "mirror_a.yml" ["mirror_b.yml"]] in
  Forall (fun c => c = service_call a) (performed p) /\
  (succeeded (service_call a) ->
   length (performed p) = S (length (mirror_configs a))) /\
  (~ succeeded (service_call a) -> length (performed p) = 1).
Proof.
  apply (validations_are_of_the_service_config (L := libraries) disk monday
           [Opt_sc "config.yml"; Opt_ss "schema.json";
            Opt_mc "mirror_a.yml" ["mirror_b.yml"]]
           (namespace (config "config.yml" service_doc) schema_doc
              [config "mirror_a.yml" mirror_doc;
               config "mirror_b.yml" nameless_doc]
              None)).
  reflexivity.
Defined.

(** X8.  The mirror loop over two lists, one after the other, is the loop
    over the first followed by the loop over the second, started with the
    exit code the first hands over.  When the loop returns, it has
    performed one validation per mirror config, its exit code is the one
    it was started with or 1, and an exit code of 1 is never set back. *)
Theorem mirror_loop_composes_and_keeps_failure {L : Libraries} (a : Namespace) :
  (forall todo1 todo2 code w,
      for_mirror_config a (todo1 ++ todo2) code w =
      bind (for_mirror_config a todo1 code) (for_mirror_config a todo2) w) /\
  (forall todo code w code' w',
      for_mirror_config a todo code w = (Returns code', w') ->
      (code' = code \/ code' = 1%Z) /\
      (code = 1%Z -> code' = 1%Z) /\
      validations w' =
        (validations w ++ repeat (service_call a) (length todo))%list /\
      (records w' = records w \/
       length (records w') = length (records w) + length todo)).
Proof.
  split; [apply for_mirror_config_app_at|].
  intros todo code w code' w' H.
  destruct (call_result (service_call a)) as [|err|err] eqn:E.
  - rewrite (loop_passed a todo E) in H. injection H as <- <-. simpl.
    repeat split; auto.
  - rewrite (loop_failed a err todo E) in H. injection H as <- <-. simpl.
    repeat split.
    + destruct todo; auto.
    + intros ->. now destruct todo.
    + right. now rewrite length_app, length_map.
  - destruct todo as [|m rest].
    + simpl in H. unfold ret in H. injection H as <- <-. simpl.
      rewrite app_nil_r. repeat split; auto.
    + rewrite (loop_schema_error a err m rest code w E) in H. discriminate H.
Qed.

